(** * Subscription engine of irohad: a shallow embedding

    Sources embedded here:
    - [irohad/subscription/subscription_engine.hpp]  (SubscriptionEngine)
    - [irohad/subscription/sync_dispatcher_impl.hpp] (SyncDispatcher)
    - the header guarded by IROHA_SUBSCRIPTION_HPP   (SubscriberCreator)

    State is passed explicitly.  Shared ownership ([std::shared_ptr] /
    [std::weak_ptr]) is a store of control blocks with their strong
    counts; a [std::list] is a list of nodes, each with its own identity,
    so that an iterator is the identity of the node it points to. *)

From stdpp Require Import gmap list fin_maps.
From Stdlib Require Import ZArith.

Set Default Proof Using "Type".

(** ** Shared ownership *)

(** The address of a subscriber's control block. *)
Abbreviation SubId := positive.

(** A [std::weak_ptr]: it names a control block and owns nothing. *)
Abbreviation weak_ptr := SubId.

(** The control blocks: the number of [std::shared_ptr]s to each object. *)
Abbreviation Heap := (gmap SubId nat).

Definition use_count (h : Heap) (p : SubId) : nat := default 0 (h !! p).

(** [wsub.lock()]: a new strong reference when the object is alive. *)
Definition lock (p : weak_ptr) (h : Heap) : option Heap :=
  match use_count h p with
  | 0 => None
  | S n => Some (<[p := S (S n)]> h)
  end.

(** The destructor of the [std::shared_ptr] that [lock] returned: one
    strong reference less. *)
Definition release (p : SubId) (h : Heap) : Heap :=
  <[p := Nat.pred (use_count h p)]> h.

(** [using SubscriptionSetId = uint32_t;] the value is only stored and
    passed on, no arithmetic is done on it. *)
Abbreviation SubscriptionSetId := N.

(** An operation that may hit undefined behaviour of the C++ library. *)
Inductive result (A : Type) : Type :=
| Ok (a : A)
| UndefinedBehaviour.
Arguments Ok {A} a.
Arguments UndefinedBehaviour {A}.

(** The identity of a [std::list] node; an iterator other than [end()]
    is the node it points to. *)
Abbreviation Node := positive.

Section Engine.

Context {EventKey : Type} `{Countable EventKey}.
Context {Tid : Type}.
(** The tuple [std::make_tuple(args...)] of the event parameters. *)
Context {Args : Type}.
(** [Dispatcher::checkTid<kTid>()]. It is declared in
    [subscription/dispatcher.hpp], which is not among the sources, so
    the engine takes it as a parameter. *)
Variable checkTid : Tid → bool.

(** One call [sub->on_notify(id, key, args...)]. *)
Record Invocation := mkInvocation {
  inv_sub : SubId;
  inv_set_id : SubscriptionSetId;
  inv_key : EventKey;
  inv_args : Args
}.

(** What a task can act on: the subscribers' control blocks, and the
    calls of [on_notify] made so far. The engine is not part of it: a
    callback that calls back into the engine is outside this model. *)
Record World := mkWorld {
  heap : Heap;
  log : list Invocation
}.

Definition with_heap (h : Heap) (w : World) : World :=
  {| heap := h; log := log w |}.

(** [Dispatcher::Task], a [void()] closure. *)
Definition Task := World → World.

(** The element of [SubscribersContainer]:
    [std::tuple<Tid, SubscriptionSetId, SubscriberWeakPtr>]. *)
Definition Record_ : Type := Tid * SubscriptionSetId * weak_ptr.

Abbreviation SubscribersContainer := (list (Node * Record_)).
Abbreviation IteratorType := Node.

(** The engine: [subscribers_map_], and the next fresh node address
    of the list allocator. An address is handed out once, so a stale
    iterator never points to a newer node. *)
Record SubscriptionEngine := mkEngine {
  subscribers_map_ : gmap EventKey SubscribersContainer;
  next_node_ : Node
}.

Definition empty_engine : SubscriptionEngine :=
  {| subscribers_map_ := ∅; next_node_ := 1%positive |}.

Definition nodes (l : SubscribersContainer) : list Node := l.*1.

(** The fields of a stored record. *)
Definition rec_tid (r : Node * Record_) : Tid := r.2.1.1.
Definition rec_set_id (r : Node * Record_) : SubscriptionSetId := r.2.1.2.
Definition rec_sub (r : Node * Record_) : weak_ptr := r.2.2.

(** The records whose subscriber is alive in [h]. *)
Definition is_live (h : Heap) (r : Node * Record_) : Prop :=
  use_count h (rec_sub r) ≠ 0.

#[export] Instance is_live_dec h r : Decision (is_live h r).
Proof. unfold is_live. apply _. Defined.

Definition live_records (h : Heap) (l : SubscribersContainer)
    : SubscribersContainer :=
  filter (is_live h) l.

(** [std::unordered_map::find] followed by a use of the list; an
    absent key has no records. *)
Definition records_of (key : EventKey) (m : gmap EventKey SubscribersContainer)
    : SubscribersContainer :=
  default [] (m !! key).

(** [subscribe<kTid>(set_id, key, ptr)]. [None]: [checkTid] rejects
    the call. [subscribers_map_[key]] makes an empty list for a new key. *)
Definition subscribe (kTid : Tid) (set_id : SubscriptionSetId)
    (key : EventKey) (ptr : weak_ptr) (e : SubscriptionEngine)
    : option (IteratorType * SubscriptionEngine) :=
  if checkTid kTid then
    let subscribers_list := default [] (subscribers_map_ e !! key) in
    let it := next_node_ e in
    Some (it,
          {| subscribers_map_ :=
               <[key := subscribers_list ++ [(it, (kTid, set_id, ptr))]]>
                 (subscribers_map_ e);
             next_node_ := Pos.succ it |})
  else None.

(** [std::list::erase(it)]: the iterator has to point into this list. *)
Fixpoint list_erase (it : IteratorType) (l : SubscribersContainer)
    : result SubscribersContainer :=
  match l with
  | [] => UndefinedBehaviour
  | (n, r) :: l' =>
      if decide (n = it) then Ok l'
      else match list_erase it l' with
           | Ok l'' => Ok ((n, r) :: l'')
           | UndefinedBehaviour => UndefinedBehaviour
           end
  end.

(** [unsubscribe(key, it_remove)]. *)
Definition unsubscribe (key : EventKey) (it_remove : IteratorType)
    (e : SubscriptionEngine) : result SubscriptionEngine :=
  match subscribers_map_ e !! key with
  | Some l =>
      match list_erase it_remove l with
      | Ok l' =>
          Ok {| subscribers_map_ :=
                  if bool_decide (l' = [])
                  then delete key (subscribers_map_ e)
                  else <[key := l']> (subscribers_map_ e);
                next_node_ := next_node_ e |}
      | UndefinedBehaviour => UndefinedBehaviour
      end
  | None => Ok e
  end.

(** Node identities are those the allocator has handed out, each once
    per list. *)
Definition wf_engine (e : SubscriptionEngine) : Prop :=
  ∀ key l, subscribers_map_ e !! key = Some l →
    NoDup (nodes l) ∧ ∀ n, n ∈ nodes l → (n < next_node_ e)%positive.

(** No key of the map has an empty list. *)
Definition no_empty_key (e : SubscriptionEngine) : Prop :=
  ∀ key l, subscribers_map_ e !! key = Some l → l ≠ [].

(** [size(key)]. *)
Definition size_key (key : EventKey) (e : SubscriptionEngine) : nat :=
  match subscribers_map_ e !! key with
  | Some l => length l
  | None => 0
  end.

(** [size()]. *)
Definition size_all (e : SubscriptionEngine) : nat :=
  map_fold (λ _ l count, count + length l) 0 (subscribers_map_ e).

(** [Subscriber::on_notify] is virtual and implemented outside the
    engine; the call itself is what the engine contributes. *)
Definition on_notify (sub : SubId) (id : SubscriptionSetId)
    (key : EventKey) (args : Args) (w : World) : World :=
  {| heap := heap w; log := log w ++ [mkInvocation sub id key args] |}.

(** The closure that [notify] hands to the dispatcher; it captures
    [wsub], [id], [key] and the tuple [args]. *)
Definition notify_task (wsub : weak_ptr) (id : SubscriptionSetId)
    (key : EventKey) (args : Args) : Task :=
  λ w,
    match lock wsub (heap w) with
    | Some h1 =>
        let w1 := on_notify wsub id key args (with_heap h1 w) in
        with_heap (release wsub (heap w1)) w1
    | None => w
    end.

(** The calls of [on_notify] that one pass over the records [l] makes. *)
Definition invocations (key : EventKey) (args : Args)
    (l : SubscribersContainer) : list Invocation :=
  (λ r, mkInvocation (rec_sub r) (rec_set_id r) key args) <$> l.

(** The tasks that one pass over the records [l] submits, with their lanes. *)
Definition submissions (key : EventKey) (args : Args)
    (l : SubscribersContainer) : list (Tid * Task) :=
  (λ r, (rec_tid r, notify_task (rec_sub r) (rec_set_id r) key args)) <$> l.

(** [IDispatcher]: the interface the engine calls. *)
Class IDispatcher (D : Type) := {
  dispose : D → D;
  add : Tid → Task → D → World → D * World;
  addDelayed : Tid → Z → Task → D → World → D * World
}.

Section Notify.
Context {D : Type} `{!IDispatcher D}.

(** The loop of [notify] over [subscribers_container]. *)
Fixpoint notify_loop (key : EventKey) (args : Args)
    (l : SubscribersContainer) (d : D) (w : World)
    : SubscribersContainer * D * World :=
  match l with
  | [] => ([], d, w)
  | (n, (tid, id, wsub)) :: rest =>
      match lock wsub (heap w) with
      | Some h1 =>
          let '(d2, w2) :=
            add tid (notify_task wsub id key args) d (with_heap h1 w) in
          let w3 := with_heap (release wsub (heap w2)) w2 in
          let '(rest', d', w') := notify_loop key args rest d2 w3 in
          ((n, (tid, id, wsub)) :: rest', d', w')
      | None => notify_loop key args rest d w
      end
  end.

(** [notify(key, args...)]. *)
Definition notify (key : EventKey) (args : Args)
    (e : SubscriptionEngine) (d : D) (w : World)
    : SubscriptionEngine * D * World :=
  match subscribers_map_ e !! key with
  | None => (e, d, w)
  | Some l =>
      let '(l', d', w') := notify_loop key args l d w in
      ({| subscribers_map_ := <[key := l']> (subscribers_map_ e);
          next_node_ := next_node_ e |}, d', w')
  end.
End Notify.

(** ** SyncDispatcher: no data members. *)
Inductive SyncDispatcher : Set := SyncDispatcherObj.

#[export] Instance SyncDispatcher_impl : IDispatcher SyncDispatcher := {|
  dispose d := d;
  add _ task d w := (d, task w);
  addDelayed _ _ task d w := (d, task w)
|}.

(** A dispatcher that keeps what it is given and runs nothing: it
    shows which tasks the engine submits, and on which lane. *)
Definition Recorder := list (Tid * Task).

#[export] Instance Recorder_impl : IDispatcher Recorder := {|
  dispose d := d;
  add tid task d w := (d ++ [(tid, task)], w);
  addDelayed tid _ task d w := (d ++ [(tid, task)], w)
|}.

End Engine.


Arguments Invocation : clear implicits.
Arguments World : clear implicits.
Arguments Task : clear implicits.
Arguments SubscriptionEngine EventKey {_ _} Tid.
Arguments IDispatcher : clear implicits.
Arguments Recorder : clear implicits.

(** ** The application's instantiation (IROHA_SUBSCRIPTION_HPP) *)

Inductive SubscriptionEngineHandlers :=
| kYac
| kMetrics
| kRequestProposal
| kVoteProcess
| kTotalCount.

Inductive EventTypes :=
| kOnOutcome
| kOnSynchronization
| kOnInitialSynchronization
| kOnCurrentRoundPeers
| kOnRoundSwitch
| kOnProposal
| kOnVerifiedProposal
| kOnProcessedHashes
| kOnOutcomeFromYac
| kOnOutcomeDelayed
| kOnBlock
| kOnInitialBlock
| kOnBlockCreatorEvent
| kOnFinalizedTxs
| kOnApplyState
| kOnNeedProposal
| kOnNewProposal
| kOnStateUpdate
| kOnPreparedBatches
| kOnExpiredBatches
| kTimer
| kOnTestOperationComplete.

(** The enumerators' values: [kYac = 0], then one more each. *)
Definition handler_value (t : SubscriptionEngineHandlers) : N :=
  match t with
  | kYac => 0
  | kMetrics => 1
  | kRequestProposal => 2
  | kVoteProcess => 3
  | kTotalCount => 4
  end.

(** [kOnOutcome = 0], then one more each. *)
Definition event_value (k : EventTypes) : nat :=
  match k with
  | kOnOutcome => 0 | kOnSynchronization => 1
  | kOnInitialSynchronization => 2 | kOnCurrentRoundPeers => 3
  | kOnRoundSwitch => 4 | kOnProposal => 5 | kOnVerifiedProposal => 6
  | kOnProcessedHashes => 7 | kOnOutcomeFromYac => 8
  | kOnOutcomeDelayed => 9 | kOnBlock => 10 | kOnInitialBlock => 11
  | kOnBlockCreatorEvent => 12 | kOnFinalizedTxs => 13
  | kOnApplyState => 14 | kOnNeedProposal => 15 | kOnNewProposal => 16
  | kOnStateUpdate => 17 | kOnPreparedBatches => 18
  | kOnExpiredBatches => 19 | kTimer => 20
  | kOnTestOperationComplete => 21
  end.

Definition event_of_value (n : nat) : option EventTypes :=
  match n with
  | 0 => Some kOnOutcome | 1 => Some kOnSynchronization
  | 2 => Some kOnInitialSynchronization | 3 => Some kOnCurrentRoundPeers
  | 4 => Some kOnRoundSwitch | 5 => Some kOnProposal
  | 6 => Some kOnVerifiedProposal | 7 => Some kOnProcessedHashes
  | 8 => Some kOnOutcomeFromYac | 9 => Some kOnOutcomeDelayed
  | 10 => Some kOnBlock | 11 => Some kOnInitialBlock
  | 12 => Some kOnBlockCreatorEvent | 13 => Some kOnFinalizedTxs
  | 14 => Some kOnApplyState | 15 => Some kOnNeedProposal
  | 16 => Some kOnNewProposal | 17 => Some kOnStateUpdate
  | 18 => Some kOnPreparedBatches | 19 => Some kOnExpiredBatches
  | 20 => Some kTimer | 21 => Some kOnTestOperationComplete
  | _ => None
  end.

#[export] Instance EventTypes_eq_dec : EqDecision EventTypes.
Proof. solve_decision. Defined.

#[export] Instance EventTypes_countable : Countable EventTypes.
Proof.
  refine (inj_countable event_value event_of_value _).
  by intros [].
Defined.

(** Modelled from the spec: [checkTid], declared in
    [subscription/dispatcher.hpp], which is not among the sources; the
    spec has it assert that the lane is below the lane count,
    [kTotalCount] here. *)
Definition checkTid (t : SubscriptionEngineHandlers) : bool :=
  (handler_value t <? handler_value kTotalCount)%N.

(** The result of a call that runs an [assert]. *)
Inductive checked (A : Type) : Type :=
| Returned (a : A)
| AssertionFailed.
Arguments Returned {A} a.
Arguments AssertionFailed {A}.

Section Creator.

(** [SubscriberCreator<ObjectType, EventData...>]; [EventData] is the
    tuple of the parameter pack. *)
Context {ObjectType EventData : Type}.
(** The value-initialised [ObjectType] that the subscriber is built with. *)
Variable default_object : ObjectType.

(** [CallbackFnType]; the object is passed by reference, so a call
    yields the object as the callback leaves it. *)
Definition CallbackFnType : Type :=
  SubscriptionSetId → ObjectType → EventTypes → EventData →
  checked ObjectType.

(** Modelled from the spec: [SubscriberImpl], defined in
    [subscription/subscriber_impl.hpp], which is not among the sources:
    the user state, the callback, and the registrations kept for
    removal on destruction.  The engine it is bound to is the one
    engine of the manager for this payload type. *)
Record SubscriberImpl := mkSubscriber {
  object_ : ObjectType;
  on_notify_callback_ : option CallbackFnType;
  subscriptions_ : list (SubscriptionSetId * EventTypes * Node)
}.

Abbreviation Engine :=
  (SubscriptionEngine EventTypes SubscriptionEngineHandlers).

(** The part of the process that [create] acts on: the manager's engine
    for [<EventTypes, EventData...>] (none before the first request),
    the control blocks and the subscriber objects. *)
Record System := mkSystem {
  engine_ : option Engine;
  control_ : Heap;
  subscribers_ : gmap SubId SubscriberImpl
}.

(** Modelled from the spec: [SubscriptionManager::getEngine], defined in
    [subscription/subscription_manager.hpp], which is not among the
    sources: the engine is created on the first request and memoized. *)
Definition getEngine (sys : System) : Engine * System :=
  match engine_ sys with
  | Some e => (e, sys)
  | None =>
      (empty_engine,
       {| engine_ := Some empty_engine;
          control_ := control_ sys;
          subscribers_ := subscribers_ sys |})
  end.

(** [std::make_shared<BaseSubscriber<ObjectType, EventData...>>(engine)]:
    a new object at a fresh address, held by one strong reference. *)
Definition make_shared (sys : System) : SubId * System :=
  let p := fresh (dom (control_ sys) ∪ dom (subscribers_ sys)) in
  (p, {| engine_ := engine_ sys;
         control_ := <[p := 1]> (control_ sys);
         subscribers_ :=
           <[p := {| object_ := default_object;
                     on_notify_callback_ := None;
                     subscriptions_ := [] |}]> (subscribers_ sys) |}).

(** Modelled from the spec: [SubscriberImpl::setCallback]. *)
Definition setCallback (p : SubId) (f : CallbackFnType) (sys : System)
    : System :=
  {| engine_ := engine_ sys;
     control_ := control_ sys;
     subscribers_ :=
       alter (λ s, {| object_ := object_ s;
                      on_notify_callback_ := Some f;
                      subscriptions_ := subscriptions_ s |})
             p (subscribers_ sys) |}.

(** Modelled from the spec: [SubscriberImpl::subscribe<tid>(set_id, key)]:
    register a weak reference to itself with the bound engine and keep
    the handle. *)
Definition subscriber_subscribe (tid : SubscriptionEngineHandlers)
    (set_id : SubscriptionSetId) (key : EventTypes) (p : SubId)
    (sys : System) : option System :=
  e ← engine_ sys;
  '(it, e') ← subscribe checkTid tid set_id key p e;
  Some {| engine_ := Some e';
          control_ := control_ sys;
          subscribers_ :=
            alter (λ s, {| object_ := object_ s;
                           on_notify_callback_ := on_notify_callback_ s;
                           subscriptions_ :=
                             subscriptions_ s ++ [(set_id, key, it)] |})
                  p (subscribers_ sys) |}.

(** The lambda that [create] passes to [setCallback]. *)
Definition create_callback (key : EventTypes)
    (f : ObjectType → EventData → ObjectType) : CallbackFnType :=
  λ _set_id object event_key args,
    if decide (key = event_key) then Returned (f object args)
    else AssertionFailed.

(** [SubscriberCreator::create<key, tid>(callback)]. *)
Definition create (key : EventTypes) (tid : SubscriptionEngineHandlers)
    (callback : ObjectType → EventData → ObjectType) (sys : System)
    : option (SubId * System) :=
  let '(_, sys1) := getEngine sys in
  let '(subscriber, sys2) := make_shared sys1 in
  let sys3 := setCallback subscriber (create_callback key callback) sys2 in
  sys4 ← subscriber_subscribe tid 0%N key subscriber sys3;
  Some (subscriber, sys4).

End Creator.


(** ** The states an engine can be in *)

Section Reachability.

Context {EventKey : Type} `{Countable EventKey}.
Context {Tid Args : Type}.
Variable checkTid : Tid → bool.

(** One call of a member function that can change the engine; [notify]
    with any dispatcher, in any world. *)
Inductive engine_step
    : SubscriptionEngine EventKey Tid → SubscriptionEngine EventKey Tid → Prop :=
| step_subscribe tid set_id key ptr e it e' :
    subscribe checkTid tid set_id key ptr e = Some (it, e') →
    engine_step e e'
| step_unsubscribe key it e e' :
    unsubscribe key it e = Ok e' →
    engine_step e e'
| step_notify (D : Type) (disp : IDispatcher EventKey Tid Args D)
    key (args : Args) (d : D) (w : World EventKey Args) e :
    engine_step e (notify key args e d w).1.1.

(** The engines that calls can produce from a newly constructed one. *)
Definition reachable (e : SubscriptionEngine EventKey Tid) : Prop :=
  rtc engine_step empty_engine e.

End Reachability.


(** ** States used in the examples

    One engine of the application over the payload [(int)], with
    subscribers 1 and 2 registered in turn under [kOnBlock]. *)

Abbreviation AppEngine :=
  (SubscriptionEngine EventTypes SubscriptionEngineHandlers).
Abbreviation AppWorld := (World EventTypes Z).

Definition engine_one_record : AppEngine :=
  {| subscribers_map_ :=
       {[ kOnBlock := [(1%positive, (kYac, 0%N, 1%positive))] ]};
     next_node_ := 2%positive |}.

Definition engine_two_records : AppEngine :=
  {| subscribers_map_ :=
       {[ kOnBlock := [(1%positive, (kYac, 0%N, 1%positive));
                       (2%positive, (kMetrics, 0%N, 2%positive))] ]};
     next_node_ := 3%positive |}.

Definition engine_second_record : AppEngine :=
  {| subscribers_map_ :=
       {[ kOnBlock := [(2%positive, (kMetrics, 0%N, 2%positive))] ]};
     next_node_ := 3%positive |}.

(** No subscriber is alive, nothing has been called. *)
Definition world_all_dead : AppWorld := {| heap := ∅; log := [] |}.

(** Subscriber 2 is held by one strong reference, subscriber 1 is dead. *)
Definition world_second_alive : AppWorld :=
  {| heap := {[ 2%positive := 1 ]}; log := [] |}.

(** Subscribers 1 and 2 are each held by one strong reference. *)
Definition world_both_alive : AppWorld :=
  {| heap := {[ 1%positive := 1; 2%positive := 1 ]}; log := [] |}.

(** A task that calls [on_notify] of subscriber 1. *)
Definition probe_task : Task EventTypes Z :=
  on_notify 1%positive 0%N kOnBlock 7%Z.

(** A system in which nothing has been created yet. *)
Definition empty_system {ObjectType EventData : Type}
    : System (ObjectType := ObjectType) (EventData := EventData) :=
  {| engine_ := None; control_ := ∅; subscribers_ := ∅ |}.


(** * Properties *)

(** ** Shared ownership *)

Lemma lock_Some p h h1 :
  lock p h = Some h1 ↔ ∃ n, h !! p = Some (S n) ∧ h1 = <[p := S (S n)]> h.
Proof.
  unfold lock, use_count. destruct (h !! p) as [[|n]|] eqn:E; simpl.
  - split; [done | intros (? & ? & _); done].
  - split.
    + intros [= <-]. eauto.
    + intros (m & [= <-] & ->). done.
  - split; [done | intros (? & ? & _); done].
Qed.

Lemma lock_None p h : lock p h = None ↔ use_count h p = 0.
Proof. unfold lock. destruct (use_count h p); split; done. Qed.

Lemma lock_is_Some p h : is_Some (lock p h) ↔ use_count h p ≠ 0.
Proof.
  rewrite <- not_eq_None_Some. by rewrite lock_None.
Qed.

Lemma lock_release p h h1 : lock p h = Some h1 → release p h1 = h.
Proof.
  intros (n & Hp & ->)%lock_Some. unfold release, use_count.
  rewrite lookup_insert_eq. simpl.
  rewrite insert_insert_eq. by apply insert_id.
Qed.

Lemma use_count_lock p q h h1 :
  lock p h = Some h1 → use_count h1 q ≠ 0 ↔ use_count h q ≠ 0.
Proof.
  intros (n & Hp & ->)%lock_Some. unfold use_count.
  destruct (decide (p = q)) as [<-|Hne].
  - rewrite lookup_insert_eq, Hp. simpl. split; done.
  - by rewrite lookup_insert_ne.
Qed.

Section EngineProperties.

Context {EventKey : Type} `{Countable EventKey}.
Context {Tid Args : Type}.

Implicit Types (e : SubscriptionEngine EventKey Tid).
Implicit Types (l : list (Node * Record_ (Tid := Tid))).
Implicit Types (w : World EventKey Args).
Implicit Types (key : EventKey) (args : Args) (it n : Node).

(** ** Erasing a list node *)

Lemma list_erase_absent it l :
  (it ∉ nodes l) → list_erase it l = UndefinedBehaviour.
Proof.
  induction l as [|[n r] l IH]; simpl; [done|].
  intros Hnot. apply not_elem_of_cons in Hnot as [Hne Hnot].
  rewrite decide_False by done. by rewrite IH.
Qed.

Lemma list_erase_present it r l1 l2 :
  (it ∉ nodes l1) → list_erase it (l1 ++ (it, r) :: l2) = Ok (l1 ++ l2).
Proof.
  induction l1 as [|[n r'] l1 IH]; simpl.
  - intros _. by rewrite decide_True.
  - intros Hnot. apply not_elem_of_cons in Hnot as [Hne Hnot].
    rewrite decide_False by done. by rewrite IH.
Qed.

Lemma list_erase_Ok it l l' :
  list_erase it l = Ok l' →
  ∃ l1 r l2, l = l1 ++ (it, r) :: l2 ∧ (it ∉ nodes l1) ∧ l' = l1 ++ l2.
Proof.
  revert l'. induction l as [|[n r] l IH]; simpl; [done|].
  intros l'. destruct (decide (n = it)) as [->|Hne].
  - intros [= <-]. exists [], r, l. split_and!; [done| |done].
    apply not_elem_of_nil.
  - destruct (list_erase it l) as [l''|] eqn:E; [|done].
    intros [= <-]. destruct (IH _ eq_refl) as (l1 & r' & l2 & -> & Hnot & ->).
    exists ((n, r) :: l1), r', l2. split_and!; [done| |done].
    simpl. apply not_elem_of_cons. split; [congruence|done].
Qed.

Lemma nodes_app l1 l2 : nodes (l1 ++ l2) = nodes l1 ++ nodes l2.
Proof. unfold nodes. apply fmap_app. Qed.

Lemma NoDup_nodes_split it r l1 l2 :
  NoDup (nodes (l1 ++ (it, r) :: l2)) →
  (it ∉ nodes l1) ∧ (it ∉ nodes l2) ∧ NoDup (nodes (l1 ++ l2)).
Proof.
  rewrite !nodes_app. simpl. intros Hnd.
  apply NoDup_app in Hnd as (Hnd1 & Hdisj & Hnd2).
  apply NoDup_cons in Hnd2 as [Hnot2 Hnd2].
  split_and!; [| done |].
  - intros Hin. apply (Hdisj _ Hin). left.
  - apply NoDup_app. split_and!; [done| |done].
    intros x Hx Hx2. apply (Hdisj _ Hx). by right.
Qed.

(** ** The node discipline is kept by every operation *)

Lemma wf_empty_engine : wf_engine (empty_engine (EventKey := EventKey) (Tid := Tid)).
Proof. intros key l. simpl. by rewrite lookup_empty. Qed.

Lemma subscribe_lookup (checkTid : Tid → bool) tid set_id key wsub e it e1 :
  subscribe checkTid tid set_id key wsub e = Some (it, e1) →
  it = next_node_ e ∧
  subscribers_map_ e1 !! key =
    Some (records_of key (subscribers_map_ e) ++ [(it, (tid, set_id, wsub))]) ∧
  (∀ k, k ≠ key → subscribers_map_ e1 !! k = subscribers_map_ e !! k) ∧
  next_node_ e1 = Pos.succ (next_node_ e).
Proof.
  unfold subscribe. destruct (checkTid tid); [|done].
  intros [= <- <-]. simpl. split_and!; [done| |  |done].
  - by rewrite lookup_insert_eq.
  - intros k Hk. by rewrite lookup_insert_ne.
Qed.

Lemma wf_subscribe (checkTid : Tid → bool) tid set_id key wsub e it e1 :
  wf_engine e →
  subscribe checkTid tid set_id key wsub e = Some (it, e1) →
  wf_engine e1.
Proof.
  intros Hwf (-> & Hkey & Hother & Hnext)%subscribe_lookup k l Hl.
  rewrite Hnext. destruct (decide (k = key)) as [->|Hne].
  - rewrite Hkey in Hl. injection Hl as <-.
    assert (NoDup (nodes (records_of key (subscribers_map_ e))) ∧
            ∀ n, n ∈ nodes (records_of key (subscribers_map_ e)) →
                 (n < next_node_ e)%positive) as [Hnd Hlt].
    { unfold records_of. destruct (subscribers_map_ e !! key) as [l0|] eqn:E.
      - by apply Hwf in E.
      - simpl. split; [constructor | by intros n ?%elem_of_nil]. }
    rewrite nodes_app. simpl. split.
    + apply NoDup_app. split_and!; [done| |apply NoDup_singleton].
      intros x Hx ->%list_elem_of_singleton. apply Hlt in Hx. lia.
    + intros n [Hn| ->%list_elem_of_singleton]%elem_of_app.
      * apply Hlt in Hn. lia.
      * lia.
  - rewrite Hother in Hl by done. apply Hwf in Hl as [Hnd Hlt].
    split; [done|]. intros n Hn. apply Hlt in Hn. lia.
Qed.

Lemma unsubscribe_Ok key it e e' :
  unsubscribe key it e = Ok e' →
  next_node_ e' = next_node_ e ∧
  (∀ k, k ≠ key → subscribers_map_ e' !! k = subscribers_map_ e !! k) ∧
  match subscribers_map_ e !! key with
  | None => e' = e
  | Some l =>
      ∃ l1 r l2, l = l1 ++ (it, r) :: l2 ∧ (it ∉ nodes l1) ∧
        subscribers_map_ e' !! key =
          if bool_decide (l1 ++ l2 = []) then None else Some (l1 ++ l2)
  end.
Proof.
  unfold unsubscribe. destruct (subscribers_map_ e !! key) as [l|] eqn:E.
  - destruct (list_erase it l) as [l'|] eqn:El; [|done].
    intros [= <-]. simpl. split; [done|]. split.
    + intros k Hk. case_bool_decide.
      * by rewrite lookup_delete_ne.
      * by rewrite lookup_insert_ne.
    + apply list_erase_Ok in El as (l1 & r & l2 & -> & Hnot & ->).
      exists l1, r, l2. split_and!; [done..|].
      case_bool_decide.
      * by rewrite lookup_delete_eq.
      * by rewrite lookup_insert_eq.
  - intros [= <-]. done.
Qed.

Lemma wf_unsubscribe key it e e' :
  wf_engine e → unsubscribe key it e = Ok e' → wf_engine e'.
Proof.
  intros Hwf (Hnext & Hother & Hkey)%unsubscribe_Ok k l Hl. rewrite Hnext.
  destruct (decide (k = key)) as [->|Hne].
  - destruct (subscribers_map_ e !! key) as [l0|] eqn:E.
    + destruct Hkey as (l1 & r & l2 & -> & Hnot & Hkey).
      rewrite Hkey in Hl. case_bool_decide; [done|]. injection Hl as <-.
      apply Hwf in E as [Hnd Hlt].
      apply NoDup_nodes_split in Hnd as (_ & _ & Hnd). split; [done|].
      intros n Hn. apply Hlt. rewrite nodes_app in *. simpl.
      apply elem_of_app in Hn as [Hn|Hn]; apply elem_of_app;
        [by left | right; by right].
    + subst e'. by rewrite E in Hl.
  - rewrite Hother in Hl by done. by apply Hwf in Hl.
Qed.

Lemma no_empty_key_unsubscribe key it e e' :
  no_empty_key e → unsubscribe key it e = Ok e' → no_empty_key e'.
Proof.
  intros Hne (_ & Hother & Hkey)%unsubscribe_Ok k l Hl.
  destruct (decide (k = key)) as [->|Hk].
  - destruct (subscribers_map_ e !! key) as [l0|] eqn:E.
    + destruct Hkey as (l1 & r & l2 & -> & _ & Hkey).
      rewrite Hkey in Hl. case_bool_decide; [done|]. by injection Hl as <-.
    + subst e'. by rewrite E in Hl.
  - rewrite Hother in Hl by done. by apply Hne in Hl.
Qed.

(** ** The task that notify submits *)

Lemma with_heap_same w : with_heap (heap w) w = w.
Proof. by destruct w. Qed.

Lemma notify_task_dead wsub id key args w :
  use_count (heap w) wsub = 0 → notify_task wsub id key args w = w.
Proof. intros Hdead%lock_None. unfold notify_task. by rewrite Hdead. Qed.

Lemma notify_task_live wsub id key args w :
  use_count (heap w) wsub ≠ 0 →
  notify_task wsub id key args w = on_notify wsub id key args w.
Proof.
  intros [h1 Hlock]%lock_is_Some. unfold notify_task. rewrite Hlock.
  unfold with_heap, on_notify. simpl. by rewrite (lock_release _ _ _ Hlock).
Qed.

Lemma live_records_lock wsub h h1 l :
  lock wsub h = Some h1 → live_records h1 l = live_records h l.
Proof.
  intros Hlock. unfold live_records. apply list_filter_iff.
  intros r. unfold is_live. by apply use_count_lock with wsub.
Qed.

(** ** One pass of notify, for each of the two dispatchers *)

Lemma notify_loop_sync key args l (d : SyncDispatcher) w :
  notify_loop key args l d w =
    (live_records (heap w) l, d,
     {| heap := heap w;
        log := log w ++ invocations key args (live_records (heap w) l) |}).
Proof.
  revert w. induction l as [|[n [[tid id] wsub]] l IH]; intros w.
  - simpl. rewrite app_nil_r. by destruct w.
  - simpl. destruct (lock wsub (heap w)) as [h1|] eqn:Hlock.
    + assert (use_count (heap w) wsub ≠ 0) as Hlive
        by (apply lock_is_Some; eauto).
      rewrite notify_task_live
        by (simpl; by apply (use_count_lock _ _ _ _ Hlock)).
      simpl. rewrite (lock_release _ _ _ Hlock).
      rewrite IH. simpl. unfold live_records at 3 4.
      rewrite filter_cons_True by done.
      simpl. unfold rec_sub, rec_set_id. simpl.
      by rewrite <- app_assoc.
    + apply lock_None in Hlock. rewrite IH. unfold live_records at 3 4.
      rewrite filter_cons_False; [done|]. unfold is_live. simpl. tauto.
Qed.

Lemma notify_loop_recorder key args l (q : Recorder EventKey Tid Args) w :
  notify_loop key args l q w =
    (live_records (heap w) l,
     q ++ submissions key args (live_records (heap w) l), w).
Proof.
  revert q. induction l as [|[n [[tid id] wsub]] l IH]; intros q.
  - simpl. by rewrite app_nil_r.
  - simpl. destruct (lock wsub (heap w)) as [h1|] eqn:Hlock.
    + assert (use_count (heap w) wsub ≠ 0) as Hlive
        by (apply lock_is_Some; eauto).
      rewrite (lock_release _ _ _ Hlock).
      replace (with_heap (heap w) (with_heap h1 w)) with w by by destruct w.
      rewrite IH. unfold live_records at 3 4.
      rewrite filter_cons_True by done.
      simpl. unfold rec_sub, rec_set_id, rec_tid. simpl.
      by rewrite <- app_assoc.
    + apply lock_None in Hlock. rewrite IH. unfold live_records at 3 4.
      rewrite filter_cons_False; [done|]. unfold is_live. simpl. tauto.
Qed.

Lemma notify_sync key args e (d : SyncDispatcher) w :
  notify key args e d w =
    match subscribers_map_ e !! key with
    | None => (e, d, w)
    | Some l =>
        ({| subscribers_map_ :=
              <[key := live_records (heap w) l]> (subscribers_map_ e);
            next_node_ := next_node_ e |}, d,
         {| heap := heap w;
            log := log w ++ invocations key args (live_records (heap w) l) |})
    end.
Proof.
  unfold notify. destruct (subscribers_map_ e !! key) as [l|]; [|done].
  by rewrite notify_loop_sync.
Qed.

Lemma notify_recorder key args e (q : Recorder EventKey Tid Args) w :
  notify key args e q w =
    match subscribers_map_ e !! key with
    | None => (e, q, w)
    | Some l =>
        ({| subscribers_map_ :=
              <[key := live_records (heap w) l]> (subscribers_map_ e);
            next_node_ := next_node_ e |},
         q ++ submissions key args (live_records (heap w) l), w)
    end.
Proof.
  unfold notify. destruct (subscribers_map_ e !! key) as [l|]; [|done].
  by rewrite notify_loop_recorder.
Qed.

(** Whatever the dispatcher does with the tasks, one pass only drops
    records: the list it leaves is a sublist of the one it found. *)
Lemma notify_loop_sublist {D : Type} `{!IDispatcher EventKey Tid Args D}
    key args l (d : D) w :
  (notify_loop key args l d w).1.1 `sublist_of` l.
Proof.
  revert d w. induction l as [|[n [[tid id] wsub]] l IH]; intros d w.
  - done.
  - simpl. destruct (lock wsub (heap w)) as [h1|].
    + destruct (add _ _ _ _) as [d2 w2].
      specialize (IH d2 (with_heap (release wsub (heap w2)) w2)).
      destruct (notify_loop _ _ _ _ _) as [[rest' d'] w']. simpl in *.
      by apply sublist_skip.
    + by apply sublist_cons.
Qed.

Lemma wf_notify {D : Type} `{!IDispatcher EventKey Tid Args D}
    key args e (d : D) w :
  wf_engine e → wf_engine (notify key args e d w).1.1.
Proof.
  intros Hwf. unfold notify.
  destruct (subscribers_map_ e !! key) as [l|] eqn:E; [|done].
  pose proof (notify_loop_sublist key args l d w) as Hsub.
  destruct (notify_loop _ _ _ _ _) as [[l' d'] w']. simpl in *.
  intros k lk Hk. simpl in *. destruct (decide (k = key)) as [->|Hne].
  - rewrite lookup_insert_eq in Hk. injection Hk as <-.
    apply Hwf in E as [Hnd Hlt].
    assert (nodes l' `sublist_of` nodes l) as Hnodes
      by by apply fmap_sublist.
    split.
    + by apply (sublist_NoDup _ _ Hnd).
    + intros n Hn. apply Hlt. by apply (elem_of_sublist _ _ _ Hn).
  - rewrite lookup_insert_ne in Hk by done. by apply Hwf in Hk.
Qed.

(** ** What the records of a key are *)

Lemma size_key_records key e :
  size_key key e = length (records_of key (subscribers_map_ e)).
Proof.
  unfold size_key, records_of. by destruct (subscribers_map_ e !! key).
Qed.

Lemma live_records_all h l :
  Forall (is_live h) l → live_records h l = l.
Proof.
  unfold live_records. induction 1 as [|r l Hr _ IH]; [done|].
  rewrite filter_cons_True by done. by rewrite IH.
Qed.

Lemma elem_of_invocations i key args l :
  i ∈ invocations key args l ↔
  ∃ r, r ∈ l ∧ i = mkInvocation (rec_sub r) (rec_set_id r) key args.
Proof.
  unfold invocations. rewrite list_elem_of_fmap. split.
  - intros (r & -> & Hr). by exists r.
  - intros (r & Hr & ->). by exists r.
Qed.

(** ** Unsubscribe *)

(** C7. Unsubscribing with a handle that addresses a record of the list
    under [key] erases that record and no other, removes the key when
    its list becomes empty, and leaves every other key as it was. *)
Theorem unsubscribe_erases_exactly key it r l1 l2 e :
  subscribers_map_ e !! key = Some (l1 ++ (it, r) :: l2) →
  NoDup (nodes (l1 ++ (it, r) :: l2)) →
  ∃ e', unsubscribe key it e = Ok e' ∧
    subscribers_map_ e' !! key =
      (if bool_decide (l1 ++ l2 = []) then None else Some (l1 ++ l2)) ∧
    (∀ k, k ≠ key → subscribers_map_ e' !! k = subscribers_map_ e !! k).
Proof.
  intros Hkey (Hnot1 & _ & _)%NoDup_nodes_split.
  unfold unsubscribe. rewrite Hkey, list_erase_present by done.
  eexists. split; [done|]. simpl. split.
  - case_bool_decide.
    + by rewrite lookup_delete_eq.
    + by rewrite lookup_insert_eq.
  - intros k Hk. case_bool_decide.
    + by rewrite lookup_delete_ne.
    + by rewrite lookup_insert_ne.
Qed.

(** C6, as the engine has it. After a first [unsubscribe(key, handle)],
    a second call with the same handle changes nothing when the key has
    no entry any more (the first call emptied its list, or there was
    none); when records remain under the key, the engine passes the
    stale handle to the list's [erase], which is undefined. *)
Theorem unsubscribe_twice key it e e1 :
  wf_engine e →
  unsubscribe key it e = Ok e1 →
  (subscribers_map_ e1 !! key = None → unsubscribe key it e1 = Ok e1) ∧
  (is_Some (subscribers_map_ e1 !! key) →
   unsubscribe key it e1 = UndefinedBehaviour).
Proof.
  intros Hwf Hfirst. split.
  - intros Hnone. unfold unsubscribe. by rewrite Hnone.
  - intros [l' Hl']. pose proof Hfirst as (_ & _ & Hkey)%unsubscribe_Ok.
    destruct (subscribers_map_ e !! key) as [l|] eqn:E.
    + destruct Hkey as (l1 & r & l2 & -> & _ & Hkey).
      rewrite Hl' in Hkey. case_bool_decide; [done|]. injection Hkey as ->.
      apply Hwf in E as [Hnd _].
      apply NoDup_nodes_split in Hnd as (Hn1 & Hn2 & _).
      unfold unsubscribe. rewrite Hl', list_erase_absent; [done|].
      rewrite nodes_app. intros [?|?]%elem_of_app; done.
    + subst e1. by rewrite E in Hl'.
Qed.

(** ** The dispatchers *)

(** C5. The sync dispatcher runs a task once, in the call itself,
    whatever the lane and the delay; so when [notify] returns, the
    [on_notify] of every live subscriber of the key has been called,
    once each and in list order. *)
Theorem sync_dispatcher_runs_inline (d : SyncDispatcher) (tid : Tid)
    (timeout : Z) (task : Task EventKey Args) key args e w :
  add tid task d w = (d, task w) ∧
  addDelayed tid timeout task d w = (d, task w) ∧
  ∃ e', notify key args e d w =
    (e', d,
     {| heap := heap w;
        log := log w ++
          invocations key args
            (live_records (heap w) (records_of key (subscribers_map_ e))) |}).
Proof.
  split; [done|]. split; [done|]. rewrite notify_sync. unfold records_of.
  destruct (subscribers_map_ e !! key) as [l|]; simpl.
  - eauto.
  - exists e. rewrite app_nil_r. by destruct w.
Qed.

(** C4, as the sync dispatcher has it. It keeps no stopped state:
    [dispose] does nothing, and [add] and [addDelayed] called after it
    run the task once, inline, as before. *)
Theorem sync_dispatcher_has_no_stopped_state (d : SyncDispatcher)
    (tid : Tid) (timeout : Z) (task : Task EventKey Args) w :
  dispose (EventKey := EventKey) (Tid := Tid) (Args := Args) d = d ∧
  add tid task
    (dispose (EventKey := EventKey) (Tid := Tid) (Args := Args) d) w
    = (d, task w) ∧
  addDelayed tid timeout task
    (dispose (EventKey := EventKey) (Tid := Tid) (Args := Args) d) w
    = (d, task w).
Proof. done. Qed.

(** ** Notify *)

(** C10. For a key that has no entry in the map, [notify] returns at
    once: the engine, the dispatcher and the world are as before,
    whatever the dispatcher; a dispatcher that records its submissions
    has recorded none. *)
Theorem notify_unknown_key_noop key args e w :
  subscribers_map_ e !! key = None →
  (∀ (D : Type) (disp : IDispatcher EventKey Tid Args D) (d : D),
     notify key args e d w = (e, d, w)) ∧
  (∀ q : Recorder EventKey Tid Args, (notify key args e q w).1.2 = q).
Proof.
  intros Hnone. split.
  - intros D disp d. unfold notify. by rewrite Hnone.
  - intros q. unfold notify. by rewrite Hnone.
Qed.

(** C1. What [notify] leaves in the dispatcher holds no strong
    reference (the control blocks are as before, and nothing has run),
    and each submitted task is the closure over the weak reference of a
    record of the key: run in any world where that subscriber has no
    strong reference left, it does nothing, so [on_notify] is not
    called. *)
Theorem no_delivery_after_death key args e
    (q : Recorder EventKey Tid Args) w :
  ∃ e' submitted,
    notify key args e q w = (e', q ++ submitted, w) ∧
    Forall (λ '(tid, t),
      ∃ n id wsub,
        (n, (tid, id, wsub)) ∈ records_of key (subscribers_map_ e) ∧
        t = notify_task wsub id key args ∧
        ∀ w', use_count (heap w') wsub = 0 → t w' = w' ∧ log (t w') = log w')
      submitted.
Proof.
  rewrite notify_recorder. unfold records_of.
  destruct (subscribers_map_ e !! key) as [l|]; simpl.
  - eexists _, _. split; [done|].
    apply Forall_forall. intros [tid t].
    unfold submissions. rewrite list_elem_of_fmap.
    intros ([n [[tid' id] wsub]] & [= -> ->] & [_ Hin]%list_elem_of_filter).
    exists n, id, wsub. split_and!; [done..|].
    intros w' Hdead. unfold rec_sub, rec_set_id. simpl.
    by rewrite notify_task_dead.
  - exists e, []. rewrite app_nil_r. split; [done|]. constructor.
Qed.

(** C8. A subscription made with set id [s] under [k] is stored as a
    record carrying [s]; and for every engine in which that record is
    registered and every [notify(k, args)] while its subscriber is
    alive: the sync dispatcher has called [on_notify] with [s], [k] and
    [args]; the task left in a recording dispatcher, on the record's
    lane, calls [on_notify] with [s], [k] and [args] when it runs with
    the subscriber alive; and no call made by [notify] carries another
    key or payload, or a set id other than its record's. *)
Theorem payload_and_set_id_echo (checkTid : Tid → bool)
    e0 tid s k wsub it e1 :
  subscribe checkTid tid s k wsub e0 = Some (it, e1) →
  (it, (tid, s, wsub)) ∈ records_of k (subscribers_map_ e1) ∧
  ∀ e args w,
    (it, (tid, s, wsub)) ∈ records_of k (subscribers_map_ e) →
    use_count (heap w) wsub ≠ 0 →
    (∀ d : SyncDispatcher,
       mkInvocation wsub s k args ∈ log (notify k args e d w).2 ∧
       ∀ i, i ∈ log (notify k args e d w).2 →
         i ∈ log w ∨
         (inv_key i = k ∧ inv_args i = args ∧
          ∃ n' tid', (n', (tid', inv_set_id i, inv_sub i))
                       ∈ records_of k (subscribers_map_ e))) ∧
    (∀ q : Recorder EventKey Tid Args,
       (tid, notify_task wsub s k args) ∈ (notify k args e q w).1.2 ∧
       ∀ w', use_count (heap w') wsub ≠ 0 →
         log (notify_task wsub s k args w') =
           log w' ++ [mkInvocation wsub s k args]).
Proof.
  intros (-> & Hkey & _ & _)%subscribe_lookup. split.
  { unfold records_of at 1. rewrite Hkey. simpl.
    apply elem_of_app. right. by apply list_elem_of_singleton. }
  intros e args w Hin Hlive. unfold records_of in Hin.
  destruct (subscribers_map_ e !! k) as [l|] eqn:El;
    [|by apply elem_of_nil in Hin].
  simpl in Hin.
  assert ((next_node_ e0, (tid, s, wsub)) ∈ live_records (heap w) l) as Hrec.
  { apply list_elem_of_filter. by split. }
  split.
  - intros d. rewrite notify_sync, El. simpl. split.
    + apply elem_of_app. right. apply elem_of_invocations. eauto.
    + intros i [Hi|Hi]%elem_of_app; [by left|right].
      apply elem_of_invocations in Hi
        as ([n' [[tid' s'] sub']] & [_ Hr]%list_elem_of_filter & ->).
      simpl. split_and!; [done..|]. exists n', tid'.
      unfold records_of. by rewrite El.
  - intros q. rewrite notify_recorder, El. simpl. split.
    + apply elem_of_app. right. unfold submissions.
      apply list_elem_of_fmap. eexists. split; [|exact Hrec]. done.
    + intros w' Hlive'. by rewrite notify_task_live.
Qed.

(** C2, as the engine has it. After a subscription whose subscriber
    has died, one [notify] on the key erases its record together with
    every other record of the key whose subscriber is dead: the records
    left are the live ones among those present before the subscription.
    So [size(key)] is at most its value before the subscription, and is
    that value when all of those are alive; and [on_notify] is not
    called for the dead subscriber. *)
Theorem lazy_cleanup_on_notify (checkTid : Tid → bool)
    e0 tid s key wsub it e1 args (d : SyncDispatcher) w :
  wf_engine e0 →
  subscribe checkTid tid s key wsub e0 = Some (it, e1) →
  use_count (heap w) wsub = 0 →
  ∃ e2 w2,
    notify key args e1 d w = (e2, d, w2) ∧
    (it ∉ nodes (records_of key (subscribers_map_ e2))) ∧
    records_of key (subscribers_map_ e2) =
      live_records (heap w) (records_of key (subscribers_map_ e0)) ∧
    size_key key e2 ≤ size_key key e0 ∧
    (Forall (is_live (heap w)) (records_of key (subscribers_map_ e0)) →
     size_key key e2 = size_key key e0) ∧
    (∀ i, i ∈ log w2 → inv_sub i = wsub → i ∈ log w).
Proof.
  intros Hwf (-> & Hkey & _ & _)%subscribe_lookup Hdead.
  rewrite notify_sync, Hkey. eexists _, _. split; [done|].
  set (l0 := records_of key (subscribers_map_ e0)).
  assert (live_records (heap w) (l0 ++ [(next_node_ e0, (tid, s, wsub))])
          = live_records (heap w) l0) as Hlive.
  { unfold live_records. rewrite filter_app, filter_cons_False, filter_nil.
    - apply app_nil_r.
    - unfold is_live. simpl. tauto. }
  rewrite Hlive.
  assert (records_of key
            (<[key := live_records (heap w) l0]> (subscribers_map_ e1))
          = live_records (heap w) l0) as Hrec.
  { unfold records_of. by rewrite lookup_insert_eq. }
  rewrite !size_key_records. simpl. rewrite Hrec. fold l0.
  split_and!.
  - intros (r & Hit & [_ Hr]%list_elem_of_filter)%list_elem_of_fmap.
    assert (r.1 ∈ nodes l0) as Hn by by apply list_elem_of_fmap_2.
    rewrite <- Hit in Hn. subst l0. unfold records_of in Hn.
    destruct (subscribers_map_ e0 !! key) as [l|] eqn:E.
    + apply Hwf in E as [_ Hlt]. apply Hlt in Hn. lia.
    + by apply elem_of_nil in Hn.
  - done.
  - apply length_filter.
  - intros Hall. by rewrite live_records_all.
  - intros i [Hi|Hi]%elem_of_app Hsub; [done|].
    apply elem_of_invocations in Hi as (r & [Hr _]%list_elem_of_filter & ->).
    simpl in Hsub. unfold is_live in Hr. by rewrite Hsub in Hr.
Qed.

End EngineProperties.

(** ** The example states are reachable *)

Ltac evaluate := vm_compute; reflexivity.

Lemma engine_one_record_reached :
  subscribe checkTid kYac 0%N kOnBlock 1%positive empty_engine
    = Some (1%positive, engine_one_record).
Proof. evaluate. Qed.

Lemma engine_two_records_reached :
  subscribe checkTid kMetrics 0%N kOnBlock 2%positive engine_one_record
    = Some (2%positive, engine_two_records).
Proof. evaluate. Qed.

Lemma wf_engine_one_record : wf_engine engine_one_record.
Proof.
  eapply wf_subscribe; [apply wf_empty_engine|].
  apply engine_one_record_reached.
Qed.

Lemma wf_engine_two_records : wf_engine engine_two_records.
Proof.
  eapply wf_subscribe; [apply wf_engine_one_record|].
  apply engine_two_records_reached.
Qed.

(** ** The claims on the example states *)

Lemma unsubscribe_erases_exactly_witness :
  ∃ e', unsubscribe kOnBlock 1%positive engine_two_records = Ok e' ∧
    subscribers_map_ e' !! kOnBlock =
      Some [(2%positive, (kMetrics, 0%N, 2%positive))] ∧
    (∀ k, k ≠ kOnBlock →
       subscribers_map_ e' !! k = subscribers_map_ engine_two_records !! k).
Proof.
  apply (unsubscribe_erases_exactly kOnBlock 1%positive
           (kYac, 0%N, 1%positive) []
           [(2%positive, (kMetrics, 0%N, 2%positive))] engine_two_records).
  - evaluate.
  - compute_done.
Defined.

(** Two records under one key: the first [unsubscribe] leaves the other
    record, and the second call with the same handle erases a node that
    is no longer in the list. *)
Lemma unsubscribe_twice_counterexample :
  unsubscribe kOnBlock 1%positive engine_two_records
    = Ok engine_second_record ∧
  unsubscribe kOnBlock 1%positive engine_second_record
    = UndefinedBehaviour.
Proof. split; evaluate. Qed.

Lemma unsubscribe_twice_witness :
  (subscribers_map_ engine_second_record !! kOnBlock = None →
   unsubscribe kOnBlock 1%positive engine_second_record
     = Ok engine_second_record) ∧
  (is_Some (subscribers_map_ engine_second_record !! kOnBlock) →
   unsubscribe kOnBlock 1%positive engine_second_record
     = UndefinedBehaviour).
Proof.
  apply (unsubscribe_twice kOnBlock 1%positive engine_two_records).
  - apply wf_engine_two_records.
  - evaluate.
Defined.

(** After [dispose], the sync dispatcher still runs what it is given. *)
Lemma sync_dispatcher_runs_after_dispose :
  (add kYac probe_task
     (dispose (EventKey := EventTypes) (Tid := SubscriptionEngineHandlers)
        (Args := Z) SyncDispatcherObj)
     world_all_dead).2 ≠ world_all_dead ∧
  (addDelayed kYac 50000%Z probe_task
     (dispose (EventKey := EventTypes) (Tid := SubscriptionEngineHandlers)
        (Args := Z) SyncDispatcherObj)
     world_all_dead).2 ≠ world_all_dead.
Proof. split; intros [=]. Qed.

(** C3. One record whose subscriber is dead: [notify] erases it and
    leaves the key in the map with an empty list, where [unsubscribe]
    of the same record removes the key. *)
Theorem notify_leaves_empty_list :
  no_empty_key engine_one_record ∧
  subscribers_map_
    (notify kOnBlock 7%Z engine_one_record SyncDispatcherObj
       world_all_dead).1.1 !! kOnBlock = Some [] ∧
  ¬ no_empty_key
      (notify kOnBlock 7%Z engine_one_record SyncDispatcherObj
         world_all_dead).1.1 ∧
  ∃ e'', unsubscribe kOnBlock 1%positive engine_one_record = Ok e'' ∧
         subscribers_map_ e'' !! kOnBlock = None.
Proof.
  assert (subscribers_map_
            (notify kOnBlock 7%Z engine_one_record SyncDispatcherObj
               world_all_dead).1.1 !! kOnBlock = Some []) as Hempty
    by (evaluate).
  split_and!.
  - intros key l. unfold engine_one_record. simpl.
    intros [_ <-]%lookup_singleton_Some. done.
  - exact Hempty.
  - intros Hinv. by apply Hinv in Hempty.
  - eexists. split; [evaluate|]. evaluate.
Qed.

Lemma notify_unknown_key_noop_witness :
  (∀ (D : Type)
     (disp : IDispatcher EventTypes SubscriptionEngineHandlers Z D) (d : D),
     notify kTimer 7%Z engine_one_record d world_all_dead
       = (engine_one_record, d, world_all_dead)) ∧
  (∀ q : Recorder EventTypes SubscriptionEngineHandlers Z,
     (notify kTimer 7%Z engine_one_record q world_all_dead).1.2 = q).
Proof.
  apply (notify_unknown_key_noop kTimer 7%Z engine_one_record world_all_dead).
  evaluate.
Defined.

(** Subscriber 1 is registered and dead; subscriber 2 subscribes and
    dies too. One [notify] erases both records: the size is 0, not the
    1 it was before the second subscription. *)
Lemma lazy_cleanup_size_counterexample :
  subscribe checkTid kMetrics 0%N kOnBlock 2%positive engine_one_record
    = Some (2%positive, engine_two_records) ∧
  use_count (heap world_all_dead) 2%positive = 0 ∧
  size_key kOnBlock engine_one_record = 1 ∧
  size_key kOnBlock
    (notify kOnBlock 7%Z engine_two_records SyncDispatcherObj
       world_all_dead).1.1 = 0.
Proof. split_and!; evaluate. Qed.

Lemma lazy_cleanup_on_notify_witness :
  ∃ e2 w2,
    notify kOnBlock 7%Z engine_two_records SyncDispatcherObj world_all_dead
      = (e2, SyncDispatcherObj, w2) ∧
    (2%positive ∉ nodes (records_of kOnBlock (subscribers_map_ e2))) ∧
    records_of kOnBlock (subscribers_map_ e2) =
      live_records (heap world_all_dead)
        (records_of kOnBlock (subscribers_map_ engine_one_record)) ∧
    size_key kOnBlock e2 ≤ size_key kOnBlock engine_one_record ∧
    (Forall (is_live (heap world_all_dead))
       (records_of kOnBlock (subscribers_map_ engine_one_record)) →
     size_key kOnBlock e2 = size_key kOnBlock engine_one_record) ∧
    (∀ i, i ∈ log w2 → inv_sub i = 2%positive → i ∈ log world_all_dead).
Proof.
  apply (lazy_cleanup_on_notify checkTid engine_one_record kMetrics 0%N
           kOnBlock 2%positive 2%positive engine_two_records 7%Z
           SyncDispatcherObj world_all_dead).
  - apply wf_engine_one_record.
  - evaluate.
  - evaluate.
Defined.

Lemma payload_and_set_id_echo_witness :
  mkInvocation 2%positive 0%N kOnBlock 7%Z
    ∈ log (notify kOnBlock 7%Z engine_two_records SyncDispatcherObj
             world_second_alive).2.
Proof.
  pose proof (payload_and_set_id_echo (Args := Z) checkTid engine_one_record kMetrics
                0%N kOnBlock 2%positive 2%positive engine_two_records)
    as [Hin Hnotify].
  - evaluate.
  - apply (Hnotify engine_two_records 7%Z world_second_alive).
    + exact Hin.
    + vm_compute. discriminate.
Defined.

(** ** The creator helper *)

Section CreatorProperties.

Context {ObjectType EventData : Type}.
Variable default_object : ObjectType.

Implicit Types (sys : System (ObjectType := ObjectType) (EventData := EventData)).
Implicit Types (f : ObjectType → EventData → ObjectType).

Lemma getEngine_memoized sys :
  engine_ (getEngine sys).2 = Some (getEngine sys).1 ∧
  getEngine (getEngine sys).2 = getEngine sys.
Proof.
  unfold getEngine. destruct (engine_ sys) as [e|] eqn:E; simpl.
  - by rewrite E.
  - done.
Qed.

Lemma make_shared_fresh sys :
  control_ sys !! (make_shared default_object sys).1 = None ∧
  subscribers_ sys !! (make_shared default_object sys).1 = None.
Proof.
  simpl.
  pose proof (is_fresh (dom (control_ sys) ∪ dom (subscribers_ sys))) as Hf.
  apply not_elem_of_union in Hf as [Hc Hs].
  by split; apply not_elem_of_dom.
Qed.

Lemma create_callback_checks_key key f set_id object event_key args :
  create_callback key f set_id object event_key args =
    if decide (key = event_key) then Returned (f object args)
    else AssertionFailed.
Proof. done. Qed.

(** C9. [create<key, tid>(f)] makes a new subscriber, alone at a fresh
    address and held by the one strong reference that is returned;
    binds it to the manager's memoized engine; installs a callback that
    runs [f] on the object when the delivered key is [key] and fails
    its assertion otherwise; and subscribes it under [key] on lane
    [tid] with set id 0, keeping the handle. Nothing else changes. *)
Theorem create_builds_subscribes_and_returns key tid f sys :
  checkTid tid = true →
  ∃ sub it e1 sys',
    create default_object key tid f sys = Some (sub, sys') ∧
    control_ sys !! sub = None ∧ subscribers_ sys !! sub = None ∧
    use_count (control_ sys') sub = 1 ∧
    subscribe checkTid tid 0%N key sub (getEngine sys).1 = Some (it, e1) ∧
    engine_ sys' = Some e1 ∧
    (getEngine sys').1 = e1 ∧
    records_of key (subscribers_map_ e1) =
      records_of key (subscribers_map_ (getEngine sys).1)
        ++ [(it, (tid, 0%N, sub))] ∧
    (∃ callback,
       subscribers_ sys' !! sub =
         Some {| object_ := default_object;
                 on_notify_callback_ := Some callback;
                 subscriptions_ := [(0%N, key, it)] |} ∧
       ∀ set_id object event_key args,
         (event_key = key →
          callback set_id object event_key args = Returned (f object args)) ∧
         (event_key ≠ key →
          callback set_id object event_key args = AssertionFailed)) ∧
    (∀ p, p ≠ sub →
       control_ sys' !! p = control_ sys !! p ∧
       subscribers_ sys' !! p = subscribers_ sys !! p).
Proof.
  intros Htid.
  destruct (make_shared_fresh (getEngine sys).2) as [Hc Hs].
  destruct (getEngine_memoized sys) as [Hmemo _].
  assert (control_ (getEngine sys).2 = control_ sys ∧
          subscribers_ (getEngine sys).2 = subscribers_ sys) as [Hce Hse].
  { unfold getEngine. by destruct (engine_ sys). }
  unfold create.
  destruct (getEngine sys) as [e0 sys1] eqn:Hget. simpl in *.
  set (sub := fresh (dom (control_ sys1) ∪ dom (subscribers_ sys1))) in *.
  unfold subscriber_subscribe. simpl. rewrite Hmemo. simpl.
  unfold subscribe. rewrite Htid. simpl.
  eexists sub, _, _, _. split; [done|]. simpl.
  split_and!.
  - by rewrite <- Hce.
  - by rewrite <- Hse.
  - unfold use_count. by rewrite lookup_insert_eq.
  - done.
  - done.
  - done.
  - simpl. unfold records_of at 1. by rewrite lookup_insert_eq.
  - exists (create_callback key f). split.
    + by rewrite lookup_alter_eq, lookup_alter_eq, lookup_insert_eq.
    + intros set_id object event_key args.
      rewrite create_callback_checks_key. split.
      * intros ->. by rewrite decide_True.
      * intros Hne. by rewrite decide_False.
  - intros p Hp. split.
    + rewrite lookup_insert_ne by done. by rewrite Hce.
    + rewrite !lookup_alter_ne, lookup_insert_ne by done. by rewrite Hse.
Qed.

(** A lane that [checkTid] rejects: the call is refused, for instance
    with the enumerator that only counts the lanes. *)
Lemma create_rejects_lane_count key f sys :
  create default_object key kTotalCount f sys = None.
Proof.
  unfold create. destruct (getEngine sys) as [e0 sys1] eqn:Hget. simpl.
  unfold subscriber_subscribe. simpl.
  destruct (getEngine_memoized sys) as [Hmemo _].
  rewrite Hget in Hmemo. simpl in Hmemo. rewrite Hmemo. done.
Qed.

End CreatorProperties.

Lemma create_builds_subscribes_and_returns_witness :
  ∃ sub it e1 sys',
    create 0%Z kOnBlock kMetrics (λ object args, (object + args)%Z)
      empty_system = Some (sub, sys') ∧
    use_count (control_ sys') sub = 1 ∧
    engine_ sys' = Some e1 ∧
    records_of kOnBlock (subscribers_map_ e1) = [(it, (kMetrics, 0%N, sub))].
Proof.
  destruct (create_builds_subscribes_and_returns 0%Z kOnBlock kMetrics
              (λ object args, (object + args)%Z) empty_system)
    as (sub & it & e1 & sys' & Hcreate & _ & _ & Hcount & _ & Heng & _
        & Hrec & _).
  - evaluate.
  - exists sub, it, e1, sys'. split_and!; [done..|]. exact Hrec.
Defined.

(** * Further properties of the engine *)

Section EngineSizes.

Context {EventKey : Type} `{Countable EventKey}.
Context {Tid Args : Type}.

Implicit Types (e : SubscriptionEngine EventKey Tid).
Implicit Types (m : gmap EventKey (list (Node * Record_ (Tid := Tid)))).
Implicit Types (l : list (Node * Record_ (Tid := Tid))).
Implicit Types (key : EventKey) (it : Node).

(** ** The sum that [size()] computes *)

Lemma size_fold_insert_absent key l m :
  m !! key = None →
  map_fold (λ _ l count, count + length l) 0 (<[key := l]> m) =
    map_fold (λ _ l count, count + length l) 0 m + length l.
Proof.
  intros Hnone. rewrite map_fold_insert_L; [done| |done].
  intros. lia.
Qed.

Lemma size_fold_present key l m :
  m !! key = Some l →
  map_fold (λ _ l count, count + length l) 0 m =
    map_fold (λ _ l count, count + length l) 0 (delete key m) + length l.
Proof.
  intros Hsome. rewrite (map_fold_delete_L _ _ key l m); [done| |done].
  intros. lia.
Qed.

Lemma size_fold_insert key l m :
  map_fold (λ _ l count, count + length l) 0 (<[key := l]> m) =
    map_fold (λ _ l count, count + length l) 0 (delete key m) + length l.
Proof.
  rewrite <- insert_delete_eq. apply size_fold_insert_absent.
  apply lookup_delete_eq.
Qed.

Lemma size_all_split key e :
  size_all e =
    map_fold (λ _ l count, count + length l) 0
      (delete key (subscribers_map_ e)) + size_key key e.
Proof.
  unfold size_all, size_key.
  destruct (subscribers_map_ e !! key) as [l|] eqn:E.
  - by apply size_fold_present.
  - rewrite delete_id by done. lia.
Qed.

(** X1. [size(key)] never exceeds [size()]; a newly constructed engine
    has [size()] 0; and [size()] is 0 exactly when [size(key)] is 0 for
    every key. *)
Theorem size_key_bounded_by_size_all e :
  (∀ key, size_key key e ≤ size_all e) ∧
  size_all (empty_engine (EventKey := EventKey) (Tid := Tid)) = 0 ∧
  (size_all e = 0 ↔ ∀ key, size_key key e = 0).
Proof.
  split_and!.
  - intros key. rewrite (size_all_split key). lia.
  - done.
  - split.
    + intros Hzero key. pose proof (size_all_split key e). lia.
    + intros Hall. unfold size_all.
      assert (∀ k l, subscribers_map_ e !! k = Some l → length l = 0) as Hlen.
      { intros k l Hk. specialize (Hall k). unfold size_key in Hall.
        by rewrite Hk in Hall. }
      revert Hlen. generalize (subscribers_map_ e). clear.
      intros m. induction m as [|k l m Hk IH] using map_ind; intros Hlen.
      * done.
      * rewrite size_fold_insert_absent by done.
        rewrite IH.
        -- rewrite (Hlen k l); [done|]. apply lookup_insert_eq.
        -- intros k' l' Hk'. apply (Hlen k').
           rewrite lookup_insert_ne; [done|]. intros ->. congruence.
Qed.

(** X2. An accepted [subscribe] adds one record at the end of the list
    of its key: [size(key)] and [size()] grow by one, the records that
    were there keep their place, and the sizes of the other keys do not
    change. *)
Theorem subscribe_grows_size_by_one (checkTid : Tid → bool)
    tid set_id key wsub e :
  checkTid tid = true →
  ∃ it e1,
    subscribe checkTid tid set_id key wsub e = Some (it, e1) ∧
    records_of key (subscribers_map_ e1) =
      records_of key (subscribers_map_ e) ++ [(it, (tid, set_id, wsub))] ∧
    size_key key e1 = S (size_key key e) ∧
    (∀ k, k ≠ key → size_key k e1 = size_key k e) ∧
    size_all e1 = S (size_all e).
Proof.
  intros Htid. unfold subscribe. rewrite Htid. eexists _, _.
  split; [done|]. simpl.
  assert (records_of key
            (<[key := default [] (subscribers_map_ e !! key) ++
                      [(next_node_ e, (tid, set_id, wsub))]]>
               (subscribers_map_ e)) =
          records_of key (subscribers_map_ e) ++
            [(next_node_ e, (tid, set_id, wsub))]) as Hrec.
  { unfold records_of at 1. by rewrite lookup_insert_eq. }
  split_and!.
  - done.
  - rewrite !size_key_records. simpl. rewrite Hrec, length_app. simpl. lia.
  - intros k Hk. unfold size_key. simpl. by rewrite lookup_insert_ne.
  - rewrite (size_all_split key e). unfold size_all at 1. simpl.
    rewrite size_fold_insert, length_app, size_key_records. simpl.
    unfold records_of. by rewrite Nat.add_1_r, Nat.add_succ_r.
Qed.

(** X3. [unsubscribe] with a handle that points into the list of its
    key succeeds and removes one record: [size(key)] and [size()] go
    down by one, and the sizes of the other keys do not change. *)
Theorem unsubscribe_shrinks_size_by_one key it e :
  it ∈ nodes (records_of key (subscribers_map_ e)) →
  ∃ e',
    unsubscribe key it e = Ok e' ∧
    size_key key e = S (size_key key e') ∧
    (∀ k, k ≠ key → size_key k e' = size_key k e) ∧
    size_all e = S (size_all e').
Proof.
  intros Hin. unfold records_of in Hin.
  destruct (subscribers_map_ e !! key) as [l|] eqn:E;
    [|by apply elem_of_nil in Hin].
  simpl in Hin.
  destruct (list_erase it l) as [l'|] eqn:El.
  - pose proof El as (l1 & r & l2 & -> & _ & ->)%list_erase_Ok.
    assert (length (l1 ++ (it, r) :: l2) = S (length (l1 ++ l2))) as Hlen
      by (rewrite !length_app; simpl; lia).
    unfold unsubscribe. rewrite E, El. eexists. split; [done|].
    split_and!.
    + unfold size_key. simpl. rewrite E, Hlen.
      case_bool_decide as Hnil.
      * by rewrite lookup_delete_eq, Hnil.
      * by rewrite lookup_insert_eq.
    + intros k Hk. unfold size_key. simpl. case_bool_decide.
      * by rewrite lookup_delete_ne.
      * by rewrite lookup_insert_ne.
    + rewrite (size_all_split key e). unfold size_key, size_all. simpl.
      rewrite E, Hlen. case_bool_decide as Hnil.
      * rewrite Hnil. simpl. by rewrite Nat.add_1_r.
      * rewrite size_fold_insert. by rewrite Nat.add_succ_r.
  - exfalso. revert El. clear E. induction l as [|[n r] l IH]; simpl.
    + by apply elem_of_nil in Hin.
    + destruct (decide (n = it)) as [->|Hne]; [done|].
      apply elem_of_cons in Hin as [->|Hin]; [done|].
      destruct (list_erase it l); [done|]. intros _. by apply IH.
Qed.

End EngineSizes.

Section EngineBehaviour.

Context {EventKey : Type} `{Countable EventKey}.
Context {Tid Args : Type}.

Implicit Types (e : SubscriptionEngine EventKey Tid).
Implicit Types (l : list (Node * Record_ (Tid := Tid))).
Implicit Types (w : World EventKey Args).
Implicit Types (key : EventKey) (args : Args) (it n : Node).

(** ** Handles *)

Lemma wf_engine_handle_below key n e :
  wf_engine e → n ∈ nodes (records_of key (subscribers_map_ e)) →
  (n < next_node_ e)%positive.
Proof.
  intros Hwf Hn. unfold records_of in Hn.
  destruct (subscribers_map_ e !! key) as [l|] eqn:E.
  - apply Hwf in E as [_ Hlt]. by apply Hlt.
  - by apply elem_of_nil in Hn.
Qed.

(** X4. In every engine that calls of [subscribe], [unsubscribe] and
    [notify] produce from a new one, the handles within a list are
    distinct, and the handle that a further [subscribe] returns is in
    use under no key. *)
Theorem reachable_handles_distinct (checkTid : Tid → bool) e :
  reachable (Args := Args) checkTid e →
  wf_engine e ∧
  ∀ tid set_id key wsub it e1,
    subscribe checkTid tid set_id key wsub e = Some (it, e1) →
    ∀ k, it ∉ nodes (records_of k (subscribers_map_ e)).
Proof.
  intros Hreach.
  assert (wf_engine e) as Hwf.
  { unfold reachable in Hreach. revert e Hreach.
    apply (rtc_ind_r (λ e, wf_engine e)).
    - apply wf_empty_engine.
    - intros e2 e3 _ Hstep IH.
      destruct Hstep as [tid s key p e2 it e3 Hsub
                        |key it e2 e3 Hunsub
                        |D disp key args d w e2].
      + by eapply wf_subscribe.
      + by eapply wf_unsubscribe.
      + by apply wf_notify. }
  split; [done|].
  intros tid s key wsub it e1 (-> & _)%subscribe_lookup k Hin.
  apply wf_engine_handle_below in Hin; [lia|done].
Qed.

(** X5. Subscribing and then unsubscribing with the returned handle
    gives back the records of every key as they were, and the map
    itself when no key of it had an empty list. *)
Theorem subscribe_unsubscribe_roundtrip (checkTid : Tid → bool)
    tid set_id key wsub e it e1 :
  wf_engine e →
  subscribe checkTid tid set_id key wsub e = Some (it, e1) →
  ∃ e2,
    unsubscribe key it e1 = Ok e2 ∧
    (∀ k, records_of k (subscribers_map_ e2)
          = records_of k (subscribers_map_ e)) ∧
    (no_empty_key e → subscribers_map_ e2 = subscribers_map_ e).
Proof.
  intros Hwf Hsub.
  pose proof Hsub as (-> & Hkey & Hother & _)%subscribe_lookup.
  assert (next_node_ e ∉ nodes (records_of key (subscribers_map_ e)))
    as Hfresh.
  { intros Hin%wf_engine_handle_below; [lia|done]. }
  unfold unsubscribe. rewrite Hkey.
  eexists. split.
  { pose proof (list_erase_present (next_node_ e) (tid, set_id, wsub)
                  (records_of key (subscribers_map_ e)) [] Hfresh) as Herase.
    rewrite app_nil_r in Herase.
    destruct (list_erase _ _) as [l'|]; [|done].
    injection Herase as ->. done. }
  simpl. split.
  - intros k. destruct (decide (k = key)) as [->|Hne].
    + case_bool_decide as Hnil.
      * rewrite Hnil. unfold records_of. by rewrite lookup_delete_eq.
      * unfold records_of at 1. by rewrite lookup_insert_eq.
    + unfold records_of. case_bool_decide.
      * by rewrite lookup_delete_ne, Hother.
      * by rewrite lookup_insert_ne, Hother.
  - intros Hne. apply map_eq. intros k.
    destruct (decide (k = key)) as [->|Hk].
    + unfold records_of. destruct (subscribers_map_ e !! key) as [l|] eqn:E.
      * change (default [] (Some l)) with l.
        apply Hne in E. case_bool_decide; [done|].
        by rewrite lookup_insert_eq.
      * change (default [] None) with (@nil (Node * Record_ (Tid := Tid))).
        case_bool_decide; [|done]. by rewrite lookup_delete_eq.
    + case_bool_decide.
      * by rewrite lookup_delete_ne, Hother.
      * by rewrite lookup_insert_ne, Hother.
Qed.

(** X6. [unsubscribe] runs into the undefined [erase] exactly when the
    key has an entry and the handle points to no node of its list; for
    a key without an entry it returns the engine as it is, whatever the
    handle. *)
Theorem unsubscribe_undefined_iff key it e :
  (unsubscribe key it e = UndefinedBehaviour ↔
   ∃ l, subscribers_map_ e !! key = Some l ∧ it ∉ nodes l) ∧
  (subscribers_map_ e !! key = None → unsubscribe key it e = Ok e).
Proof.
  split.
  - unfold unsubscribe. destruct (subscribers_map_ e !! key) as [l|] eqn:E.
    + destruct (list_erase it l) as [l'|] eqn:El.
      * split; [done|]. intros (l0 & [= <-] & Hnot).
        by rewrite list_erase_absent in El.
      * split; [|done]. intros _. exists l. split; [done|].
        intros Hin. apply list_elem_of_fmap in Hin as ([n r] & -> & Hin).
        apply list_elem_of_split in Hin as (l1 & l2 & ->).
        simpl in El. clear E. induction l1 as [|[n' r'] l1 IH]; simpl in El.
        -- by rewrite decide_True in El.
        -- destruct (decide (n' = n)); [done|].
           destruct (list_erase n (l1 ++ (n, r) :: l2)); [done|]. by apply IH.
    + split; [done|]. by intros (l & ? & _).
  - intros Hnone. unfold unsubscribe. by rewrite Hnone.
Qed.

(** X7. [subscribe] and [unsubscribe] keep the map free of keys with an
    empty list. *)
Theorem no_empty_key_kept (checkTid : Tid → bool) e :
  no_empty_key e →
  (∀ tid set_id key wsub it e1,
     subscribe checkTid tid set_id key wsub e = Some (it, e1) →
     no_empty_key e1) ∧
  (∀ key it e1, unsubscribe key it e = Ok e1 → no_empty_key e1).
Proof.
  intros Hne. split.
  - intros tid s key wsub it e1 (_ & Hkey & Hother & _)%subscribe_lookup k l Hl.
    destruct (decide (k = key)) as [->|Hk].
    + rewrite Hkey in Hl. injection Hl as <-.
      intros [_ [=]]%app_eq_nil.
    + rewrite Hother in Hl by done. by apply Hne in Hl.
  - intros key it e1 Hun. by eapply no_empty_key_unsubscribe.
Qed.

End EngineBehaviour.

Section EngineNotify.

Context {EventKey : Type} `{Countable EventKey}.
Context {Tid Args : Type}.

Implicit Types (e : SubscriptionEngine EventKey Tid).
Implicit Types (l : list (Node * Record_ (Tid := Tid))).
Implicit Types (w : World EventKey Args).
Implicit Types (key : EventKey) (args : Args) (it n : Node).


Lemma records_of_insert key l (m : gmap EventKey (list (Node * Record_ (Tid := Tid)))) :
  records_of key (<[key := l]> m) = l.
Proof. unfold records_of. by rewrite lookup_insert_eq. Qed.

Lemma invocations_live_snoc h key args l n (tid : Tid) s p :
  use_count h p ≠ 0 →
  invocations key args (live_records h (l ++ [(n, (tid, s, p))])) =
    invocations key args (live_records h l) ++ [mkInvocation p s key args].
Proof.
  intros Hlive. unfold live_records, invocations.
  rewrite filter_app, filter_cons_True, filter_nil by done.
  by rewrite fmap_app.
Qed.

Lemma records_of_insert_ne key k l (m : gmap EventKey (list (Node * Record_ (Tid := Tid)))) :
  k ≠ key → records_of k (<[key := l]> m) = records_of k m.
Proof. intros Hk. unfold records_of. by rewrite lookup_insert_ne. Qed.




(** X11. No strong reference outlives a call: the task that [notify]
    builds leaves every use count as it found it, and so does [notify]
    itself, both when the tasks run inline and when they are queued. *)
Theorem notify_keeps_use_counts key args e w :
  (∀ wsub id w', heap (notify_task wsub id key args w') = heap w') ∧
  (∀ d : SyncDispatcher, heap (notify key args e d w).2 = heap w) ∧
  (∀ q : Recorder EventKey Tid Args, (notify key args e q w).2 = w).
Proof.
  split_and!.
  - intros wsub id w'. destruct (decide (use_count (heap w') wsub = 0)).
    + by rewrite notify_task_dead.
    + by rewrite notify_task_live.
  - intros d. rewrite notify_sync.
    by destruct (subscribers_map_ e !! key).
  - intros q. rewrite notify_recorder.
    by destruct (subscribers_map_ e !! key).
Qed.

(** X12. After [notify], [size(key)] is the number of calls of
    [on_notify] that a sync dispatcher has made, and the number of
    tasks that a queueing dispatcher has received. *)
Theorem notify_calls_match_size key args e w :
  (∀ d : SyncDispatcher,
     length (log (notify key args e d w).2) =
       length (log w) + size_key key (notify key args e d w).1.1) ∧
  (∀ q : Recorder EventKey Tid Args,
     length (notify key args e q w).1.2 =
       length q + size_key key (notify key args e q w).1.1).
Proof.
  split.
  - intros d. rewrite notify_sync. unfold size_key.
    destruct (subscribers_map_ e !! key) as [l|] eqn:E; simpl.
    + rewrite lookup_insert_eq, length_app. unfold invocations.
      by rewrite length_fmap.
    + rewrite E. lia.
  - intros q. rewrite notify_recorder. unfold size_key.
    destruct (subscribers_map_ e !! key) as [l|] eqn:E; simpl.
    + rewrite lookup_insert_eq, length_app. unfold submissions.
      by rewrite length_fmap.
    + rewrite E. lia.
Qed.

(** X13. Two subscribers registered one after the other under a key,
    both alive: a [notify] through the sync dispatcher calls them in
    the order in which they subscribed, after the subscribers that were
    registered before them, each with its own set id. *)
Theorem delivery_in_subscription_order (checkTid : Tid → bool)
    key args e0 tid1 s1 p1 it1 e1 tid2 s2 p2 it2 e2
    (d : SyncDispatcher) w :
  subscribe checkTid tid1 s1 key p1 e0 = Some (it1, e1) →
  subscribe checkTid tid2 s2 key p2 e1 = Some (it2, e2) →
  use_count (heap w) p1 ≠ 0 →
  use_count (heap w) p2 ≠ 0 →
  log (notify key args e2 d w).2 =
    log w ++
    invocations key args
      (live_records (heap w) (records_of key (subscribers_map_ e0))) ++
    [mkInvocation p1 s1 key args; mkInvocation p2 s2 key args].
Proof.
  intros (-> & Hk1 & _)%subscribe_lookup (-> & Hk2 & _)%subscribe_lookup
    Hl1 Hl2.
  rewrite notify_sync, Hk2. simpl. f_equal.
  etrans; [by apply invocations_live_snoc|].
  unfold records_of at 1. rewrite Hk1. simpl.
  etrans; [apply (f_equal (λ x, x ++ _)); by apply invocations_live_snoc|].
  by rewrite <- app_assoc.
Qed.

End EngineNotify.

(** * Further properties of the creator helper *)

Section CreatorBehaviour.

Context {ObjectType EventData : Type}.
Variable default_object : ObjectType.

Implicit Types (sys : System (ObjectType := ObjectType) (EventData := EventData)).
Implicit Types (f : ObjectType → EventData → ObjectType).

(** What an accepted [create] returns, written out. *)
Lemma create_accepted key tid f sys :
  checkTid tid = true →
  create default_object key tid f sys =
    Some (fresh (dom (control_ sys) ∪ dom (subscribers_ sys)),
          {| engine_ :=
               Some {| subscribers_map_ :=
                         <[key :=
                             records_of key
                               (subscribers_map_ (getEngine sys).1) ++
                             [(next_node_ (getEngine sys).1,
                               (tid, 0%N,
                                fresh (dom (control_ sys)
                                       ∪ dom (subscribers_ sys))))]]>
                           (subscribers_map_ (getEngine sys).1);
                       next_node_ := Pos.succ (next_node_ (getEngine sys).1) |};
             control_ :=
               <[fresh (dom (control_ sys) ∪ dom (subscribers_ sys)) := 1]>
                 (control_ sys);
             subscribers_ :=
               <[fresh (dom (control_ sys) ∪ dom (subscribers_ sys)) :=
                   {| object_ := default_object;
                      on_notify_callback_ := Some (create_callback key f);
                      subscriptions_ :=
                        [(0%N, key, next_node_ (getEngine sys).1)] |}]>
                 (subscribers_ sys) |}).
Proof.
  intros Htid. unfold create, getEngine.
  destruct (engine_ sys) as [e|] eqn:E; simpl;
    unfold subscriber_subscribe, subscribe; simpl; rewrite ?E, Htid; simpl;
    by rewrite !alter_insert_eq.
Qed.

(** X14. A subscriber made by [create<key, tid>(f)] is registered under
    [key] only, so every call that a [notify] on the manager's engine
    makes to it carries [key] and set id 0, and its callback passes the
    assertion and runs [f]; provided the records that were in the
    engine point to subscribers that exist. *)
Theorem create_callback_never_fails_on_delivery key tid f sys sub sys' e1 :
  checkTid tid = true →
  (∀ k r, r ∈ records_of k (subscribers_map_ (getEngine sys).1) →
          is_Some (control_ sys !! rec_sub r)) →
  create default_object key tid f sys = Some (sub, sys') →
  engine_ sys' = Some e1 →
  ∃ s callback,
    subscribers_ sys' !! sub = Some s ∧
    on_notify_callback_ s = Some callback ∧
    ∀ k args (d : SyncDispatcher) (w : World EventTypes EventData) i,
      i ∈ log (notify k args e1 d w).2 →
      i ∈ log w ∨
      (inv_sub i = sub →
       inv_set_id i = 0%N ∧ inv_key i = key ∧
       ∀ object,
         callback (inv_set_id i) object (inv_key i) (inv_args i)
           = Returned (f object (inv_args i))).
Proof.
  intros Htid Halloc Hcreate Hengine.
  rewrite create_accepted in Hcreate by done.
  injection Hcreate as <- <-. simpl in Hengine. injection Hengine as <-.
  set (sub := fresh (dom (control_ sys) ∪ dom (subscribers_ sys))).
  assert (control_ sys !! sub = None) as Hfresh.
  { apply not_elem_of_dom.
    pose proof (is_fresh (dom (control_ sys) ∪ dom (subscribers_ sys))) as Hf.
    by apply not_elem_of_union in Hf as [Hc _]. }
  eexists _, _. simpl. split; [by rewrite lookup_insert_eq|]. split; [done|].
  intros k args d w i. rewrite notify_sync. simpl.
  destruct (decide (k = key)) as [->|Hk].
  - rewrite lookup_insert_eq. simpl.
    intros [Hi|Hi]%elem_of_app; [by left|right].
    apply elem_of_invocations in Hi as (r & [_ Hr]%list_elem_of_filter & ->).
    simpl. intros Hsub.
    apply elem_of_app in Hr as [Hr|Hr].
    + apply Halloc in Hr as [c Hc]. rewrite Hsub in Hc. congruence.
    + apply list_elem_of_singleton in Hr as ->. simpl. split_and!; [done..|].
      intros object. unfold create_callback. by rewrite decide_True.
  - rewrite lookup_insert_ne by done.
    destruct (subscribers_map_ (getEngine sys).1 !! k) as [l|] eqn:E;
      simpl; [|by left].
    intros [Hi|Hi]%elem_of_app; [by left|right].
    apply elem_of_invocations in Hi as (r & [_ Hr]%list_elem_of_filter & ->).
    simpl. intros Hsub.
    assert (r ∈ records_of k (subscribers_map_ (getEngine sys).1)) as Hin
      by (unfold records_of; by rewrite E).
    apply Halloc in Hin as [c Hc]. rewrite Hsub in Hc. congruence.
Qed.

(** X15. Two calls of [create] return two different subscribers, each
    held by one strong reference; the second call leaves the first
    subscriber as it is; and both are registered in the one engine of
    the manager, under their keys and lanes, with different handles. *)
Theorem create_twice_shares_engine key1 tid1 f1 key2 tid2 f2 sys :
  checkTid tid1 = true →
  checkTid tid2 = true →
  ∃ sub1 sys1 sub2 sys2 e2 it1 it2,
    create default_object key1 tid1 f1 sys = Some (sub1, sys1) ∧
    create default_object key2 tid2 f2 sys1 = Some (sub2, sys2) ∧
    sub1 ≠ sub2 ∧ it1 ≠ it2 ∧
    use_count (control_ sys2) sub1 = 1 ∧
    use_count (control_ sys2) sub2 = 1 ∧
    subscribers_ sys2 !! sub1 = subscribers_ sys1 !! sub1 ∧
    engine_ sys2 = Some e2 ∧
    (it1, (tid1, 0%N, sub1)) ∈ records_of key1 (subscribers_map_ e2) ∧
    (it2, (tid2, 0%N, sub2)) ∈ records_of key2 (subscribers_map_ e2).
Proof.
  intros Htid1 Htid2.
  eexists _, _, _, _, _, (next_node_ (getEngine sys).1),
    (Pos.succ (next_node_ (getEngine sys).1)).
  split; [by apply create_accepted|].
  split; [by apply create_accepted|]. simpl.
  set (sub1 := fresh (dom (control_ sys) ∪ dom (subscribers_ sys))).
  set (sub2 := fresh (_ ∪ _)).
  assert (sub1 ≠ sub2) as Hne.
  { intros Heq.
    pose proof (is_fresh (dom (<[sub1 := 1]> (control_ sys)) ∪
                          dom (<[sub1 :=
                                   {| object_ := default_object;
                                      on_notify_callback_ :=
                                        Some (create_callback key1 f1);
                                      subscriptions_ :=
                                        [(0%N, key1,
                                          next_node_ (getEngine sys).1)] |}]>
                                 (subscribers_ sys)))) as Hf.
    fold sub2 in Hf. rewrite <- Heq in Hf. apply Hf.
    apply elem_of_union_l. rewrite dom_insert_L.
    apply elem_of_union_l. by apply elem_of_singleton. }
  split; [done|]. split; [lia|].
  split_and!.
  - unfold use_count. rewrite lookup_insert_ne by done.
    by rewrite lookup_insert_eq.
  - unfold use_count. by rewrite lookup_insert_eq.
  - by rewrite lookup_insert_ne.
  - done.
  - cbn [subscribers_map_]. destruct (decide (key1 = key2)) as [->|Hk].
    + rewrite !records_of_insert.
      apply elem_of_app. left. apply elem_of_app. right.
      by apply list_elem_of_singleton.
    + rewrite records_of_insert_ne, records_of_insert by done.
      apply elem_of_app. right. by apply list_elem_of_singleton.
  - cbn [subscribers_map_]. rewrite records_of_insert.
    apply elem_of_app. right. by apply list_elem_of_singleton.
Qed.

End CreatorBehaviour.

(** * The further properties on the example states *)

Lemma engine_two_records_reachable :
  reachable (Args := Z) checkTid engine_two_records.
Proof.
  unfold reachable.
  eapply rtc_l; [eapply step_subscribe, engine_one_record_reached|].
  eapply rtc_l; [eapply step_subscribe, engine_two_records_reached|].
  apply rtc_refl.
Qed.

Lemma no_empty_key_engine_one_record : no_empty_key engine_one_record.
Proof.
  intros key l. unfold engine_one_record. simpl.
  by intros [_ <-]%lookup_singleton_Some.
Qed.

Lemma subscribe_grows_size_by_one_witness :
  ∃ it e1,
    subscribe checkTid kMetrics 0%N kOnBlock 2%positive engine_one_record
      = Some (it, e1) ∧
    records_of kOnBlock (subscribers_map_ e1) =
      records_of kOnBlock (subscribers_map_ engine_one_record)
        ++ [(it, (kMetrics, 0%N, 2%positive))] ∧
    size_key kOnBlock e1 = S (size_key kOnBlock engine_one_record) ∧
    (∀ k, k ≠ kOnBlock → size_key k e1 = size_key k engine_one_record) ∧
    size_all e1 = S (size_all engine_one_record).
Proof.
  apply (subscribe_grows_size_by_one checkTid kMetrics 0%N kOnBlock
           2%positive engine_one_record).
  evaluate.
Defined.

Lemma unsubscribe_shrinks_size_by_one_witness :
  ∃ e',
    unsubscribe kOnBlock 1%positive engine_two_records = Ok e' ∧
    size_key kOnBlock engine_two_records = S (size_key kOnBlock e') ∧
    (∀ k, k ≠ kOnBlock → size_key k e' = size_key k engine_two_records) ∧
    size_all engine_two_records = S (size_all e').
Proof.
  apply (unsubscribe_shrinks_size_by_one kOnBlock 1%positive
           engine_two_records).
  compute_done.
Defined.

Lemma reachable_handles_distinct_witness :
  wf_engine engine_two_records ∧
  ∀ tid set_id key wsub it e1,
    subscribe checkTid tid set_id key wsub engine_two_records
      = Some (it, e1) →
    ∀ k, it ∉ nodes (records_of k (subscribers_map_ engine_two_records)).
Proof.
  apply (reachable_handles_distinct (Args := Z) checkTid engine_two_records).
  apply engine_two_records_reachable.
Defined.

Lemma subscribe_unsubscribe_roundtrip_witness :
  ∃ e2,
    unsubscribe kOnBlock 2%positive engine_two_records = Ok e2 ∧
    (∀ k, records_of k (subscribers_map_ e2)
          = records_of k (subscribers_map_ engine_one_record)) ∧
    (no_empty_key engine_one_record →
     subscribers_map_ e2 = subscribers_map_ engine_one_record).
Proof.
  apply (subscribe_unsubscribe_roundtrip checkTid kMetrics 0%N kOnBlock
           2%positive engine_one_record 2%positive engine_two_records).
  - apply wf_engine_one_record.
  - evaluate.
Defined.

Lemma no_empty_key_kept_witness :
  (∀ tid set_id key wsub it e1,
     subscribe checkTid tid set_id key wsub engine_one_record
       = Some (it, e1) →
     no_empty_key e1) ∧
  (∀ key it e1,
     unsubscribe key it engine_one_record = Ok e1 → no_empty_key e1).
Proof.
  apply (no_empty_key_kept checkTid engine_one_record).
  apply no_empty_key_engine_one_record.
Defined.


Lemma delivery_in_subscription_order_witness :
  log (notify kOnBlock 7%Z engine_two_records SyncDispatcherObj
         world_both_alive).2 =
    log world_both_alive ++
    invocations kOnBlock 7%Z
      (live_records (heap world_both_alive)
         (records_of kOnBlock
            (subscribers_map_
               (empty_engine (EventKey := EventTypes)
                  (Tid := SubscriptionEngineHandlers))))) ++
    [mkInvocation 1%positive 0%N kOnBlock 7%Z;
     mkInvocation 2%positive 0%N kOnBlock 7%Z].
Proof.
  apply (delivery_in_subscription_order checkTid kOnBlock 7%Z empty_engine
           kYac 0%N 1%positive 1%positive engine_one_record
           kMetrics 0%N 2%positive 2%positive engine_two_records
           SyncDispatcherObj world_both_alive).
  - evaluate.
  - evaluate.
  - compute_done.
  - compute_done.
Defined.

Lemma create_callback_never_fails_on_delivery_witness :
  ∃ sub sys' e1,
    create 0%Z kOnBlock kMetrics (λ object args, (object + args)%Z)
      empty_system = Some (sub, sys') ∧
    engine_ sys' = Some e1 ∧
    ∃ s callback,
      subscribers_ sys' !! sub = Some s ∧
      on_notify_callback_ s = Some callback ∧
      ∀ k args (d : SyncDispatcher) (w : World EventTypes Z) i,
        i ∈ log (notify k args e1 d w).2 →
        i ∈ log w ∨
        (inv_sub i = sub →
         inv_set_id i = 0%N ∧ inv_key i = kOnBlock ∧
         ∀ object,
           callback (inv_set_id i) object (inv_key i) (inv_args i)
             = Returned ((object + inv_args i)%Z)).
Proof.
  eexists _, _, _.
  split; [apply create_accepted; evaluate|].
  split; [reflexivity|].
  apply (create_callback_never_fails_on_delivery 0%Z kOnBlock kMetrics
           (λ object args, (object + args)%Z) empty_system).
  - evaluate.
  - intros k r Hr. by apply elem_of_nil in Hr.
  - apply create_accepted. evaluate.
  - reflexivity.
Defined.

Lemma create_twice_shares_engine_witness :
  ∃ sub1 sys1 sub2 sys2 e2 it1 it2,
    create 0%Z kOnBlock kMetrics (λ object args, (object + args)%Z)
      empty_system = Some (sub1, sys1) ∧
    create 0%Z kTimer kYac (λ object args, (object + args)%Z) sys1
      = Some (sub2, sys2) ∧
    sub1 ≠ sub2 ∧ it1 ≠ it2 ∧
    use_count (control_ sys2) sub1 = 1 ∧
    use_count (control_ sys2) sub2 = 1 ∧
    subscribers_ sys2 !! sub1 = subscribers_ sys1 !! sub1 ∧
    engine_ sys2 = Some e2 ∧
    (it1, (kMetrics, 0%N, sub1)) ∈ records_of kOnBlock (subscribers_map_ e2) ∧
    (it2, (kYac, 0%N, sub2)) ∈ records_of kTimer (subscribers_map_ e2).
Proof.
  apply (create_twice_shares_engine 0%Z kOnBlock kMetrics
           (λ object args, (object + args)%Z) kTimer kYac
           (λ object args, (object + args)%Z) empty_system).
  - evaluate.
  - evaluate.
Defined.
